(** * Verification of the EPUB generator's HTML normalisation pipeline

    A shallow embedding of [generate_epub.py]: the text-rewriting passes
    applied to each page's markup ([extract_text_from_html],
    [fix_image_paths], [clean_html_tags], [add_aria_hidden_to_br_hr],
    [ensure_unique_ids], [convert_copyright_structure],
    [generate_html_page]) and the page loop of [main].

    Python strings are lists of characters; a character is a code point
    below 256 ([ascii], read as Latin-1).  The regular expressions of the
    program are written as terms of [Re.regex] and run by a backtracking
    matcher that explores alternatives in the priority order of Python's
    [re] module. *)

From Stdlib Require Import List Ascii Bool Arith Lia NArith ZArith.
From Stdlib Require String.
From Stdlib Require Import Sorting.Sorted Sorting.Permutation.
From Stdlib Require Import DecimalString DecimalNat.
Import ListNotations.
Import String.StringSyntax.
Open Scope string_scope.

Set Implicit Arguments.

(** ** Python strings *)

Module Py.

Definition str := list ascii.

(** The double quote, the single quote and the newline. *)
Definition dq : ascii := "034"%char.
Definition sq : ascii := "039"%char.
Definition nl : ascii := "010"%char.

(** Python literals are transcribed with a backquote standing for the
    double quote, here and in the comments that quote the source (where a
    blank also separates a star from a closing parenthesis). *)
Definition py (s : String.string) : str :=
  map (fun c => if Ascii.eqb c "`" then dq else c) (String.list_ascii_of_string s).

Definition code (c : ascii) : N := N_of_ascii c.

Definition between (lo hi : N) (c : ascii) : bool :=
  (N.leb lo (code c) && N.leb (code c) hi)%bool.

(** [str.isspace] and the class [\s] on code points below 256. *)
Definition is_space (c : ascii) : bool :=
  between 9 13 c || between 28 32 c || N.eqb (code c) 133 || N.eqb (code c) 160.

Definition is_digit (c : ascii) : bool := between 48 57 c.
Definition is_upper (c : ascii) : bool := between 65 90 c.
Definition is_lower (c : ascii) : bool := between 97 122 c.
Definition is_ascii_letter (c : ascii) : bool := is_upper c || is_lower c.

(** The class [\w] on code points below 256: alphanumerics and the
    underscore. *)
Definition is_word (c : ascii) : bool :=
  is_digit c || is_ascii_letter c || N.eqb (code c) 95
  || N.eqb (code c) 170 || between 178 179 c || N.eqb (code c) 181
  || between 185 186 c || between 188 190 c
  || between 192 214 c || between 216 246 c || between 248 255 c.

(** [str.lower] on one character. *)
Definition lower (c : ascii) : ascii :=
  if is_upper c || between 192 214 c || between 216 222 c
  then ascii_of_N (code c + 32) else c.

(** ASCII case folding, the part of [re.IGNORECASE] that concerns the
    letters the program's patterns contain. *)
Definition fold_case (c : ascii) : ascii :=
  if is_upper c then ascii_of_N (code c + 32) else c.

Fixpoint str_eqb (a b : str) : bool :=
  match a, b with
  | [], [] => true
  | x :: a', y :: b' => Ascii.eqb x y && str_eqb a' b'
  | _, _ => false
  end.

(** Truthiness of a string. *)
Definition truthy (s : str) : bool :=
  match s with [] => false | _ :: _ => true end.

(** [s.startswith(p)] through the remainder after [p]. *)
Fixpoint strip_prefix (p s : str) : option str :=
  match p, s with
  | [], _ => Some s
  | x :: p', y :: s' => if Ascii.eqb x y then strip_prefix p' s' else None
  | _ :: _, [] => None
  end.

Definition startswith (s p : str) : bool :=
  match strip_prefix p s with Some _ => true | None => false end.

(** [p in s]. *)
Fixpoint contains (p s : str) : bool :=
  startswith s p || match s with [] => false | _ :: s' => contains p s' end.

Fixpoint lstrip (s : str) : str :=
  match s with
  | c :: s' => if is_space c then lstrip s' else s
  | [] => []
  end.

Definition rstrip (s : str) : str := rev (lstrip (rev s)).

Definition strip (s : str) : str := rstrip (lstrip s).

(** [s.split('\n')]: always at least one piece. *)
Fixpoint split_lines (s : str) : list str :=
  match s with
  | [] => [[]]
  | c :: s' =>
      if Ascii.eqb c nl then [] :: split_lines s'
      else match split_lines s' with
           | l :: ls => (c :: l) :: ls
           | [] => [[c]]
           end
  end.

(** ['\n'.join(ls)]. *)
Fixpoint join_lines (ls : list str) : str :=
  match ls with
  | [] => []
  | [l] => l
  | l :: ls' => l ++ nl :: join_lines ls'
  end.

Definition str_of_nat (n : nat) : str :=
  String.list_ascii_of_string (NilEmpty.string_of_uint (Nat.to_uint n)).

End Py.
Import Py.

(** ** Left-to-right scanning for non-overlapping matches *)

Module Scan.

(** What a scan of the subject yields: the characters outside every
    match, and the matches. *)
Inductive item (A : Type) : Type :=
| IChar (c : ascii)
| IMatch (a : A).
Arguments IChar {A} c.
Arguments IMatch {A} a.

Section Scanner.
Variable A : Type.

  (** [try prev s] attempts a match at the head of [s], the character
      before it being [prev]; it answers the match and what follows it. *)
Variable try : option ascii -> str -> option (A * str).

Definition last_taken (prev : option ascii) (s rest : str) : option ascii :=
    match length s - length rest with
    | 0 => prev
    | S k => nth_error s k
    end.

Definition step_over (prev : option ascii) (s : str)
      (k : option ascii -> str -> list (item A)) : list (item A) :=
    match s with
    | [] => []
    | c :: s' => IChar c :: k (Some c) s'
    end.

Fixpoint scan (fuel : nat) (prev : option ascii) (s : str) : list (item A) :=
    match fuel with
    | 0 => []
    | S fuel' =>
        match try prev s with
        | Some (a, rest) =>
            if length rest <? length s
            then IMatch a :: scan fuel' (last_taken prev s rest) rest
            else IMatch a :: step_over prev s (scan fuel')
        | None => step_over prev s (scan fuel')
        end
    end.

  (** Every iteration consumes a character, so the length of the subject
      (plus one for the attempt at its end) is fuel enough. *)
Definition items_from (prev : option ascii) (s : str) : list (item A) :=
    scan (S (length s)) prev s.

Definition items (s : str) : list (item A) := items_from None s.

Definition matches_of (l : list (item A)) : list A :=
    flat_map (fun it => match it with IMatch a => [a] | IChar _ => [] end) l.

  (** The subject with each match replaced by [f] of it. *)
Definition render (f : A -> str) (l : list (item A)) : str :=
    flat_map (fun it => match it with IChar c => [c] | IMatch a => f a end) l.

  (** The same with a replacement that reads and updates a state. *)
Fixpoint render_st (S : Type) (f : A -> S -> str * S) (l : list (item A)) (st : S)
      : str * S :=
    match l with
    | [] => ([], st)
    | IChar c :: l' => let (t, st') := render_st f l' st in (c :: t, st')
    | IMatch a :: l' =>
        let (r, st1) := f a st in
        let (t, st2) := render_st f l' st1 in
        (r ++ t, st2)
    end.

  (** The first match at or after the head of the subject. *)
Fixpoint first_match (prev : option ascii) (s : str) : option A :=
    match try prev s with
    | Some (a, _) => Some a
    | None =>
        match s with
        | [] => None
        | c :: s' => first_match (Some c) s'
        end
    end.
End Scanner.

End Scan.
Import Scan.

(** [s.replace(old, new)]. *)
Definition str_replace (old new s : str) : str :=
  render (fun _ : unit => new)
         (items (fun _ t => option_map (pair tt) (strip_prefix old t)) s).

(** ** Regular expressions in the style of Python's [re] *)

Module Re.

(** The fragment of the pattern language that the program uses.  Every
    repetition in its patterns has a single character class as its body,
    so [Star] and [LazyStar] take the class directly. *)
Inductive regex : Type :=
| Eps
| Cls (p : ascii -> bool)
| Seq (a b : regex)
| Alt (a b : regex)
| Star (p : ascii -> bool)
| LazyStar (p : ascii -> bool)
| Grp (n : nat) (a : regex)
| Bol
| WordB
| Look (a : regex).

(** A point reached while matching: the character before it, the rest of
    the subject, the characters taken since the start of the match (last
    first) and the groups closed so far (latest first). *)
Record mstate : Type := MState {
  ms_prev : option ascii;
  ms_rest : str;
  ms_taken : str;
  ms_caps : list (nat * str)
}.

Definition advance (c : ascii) (s' : str) (st : mstate) : mstate :=
  MState (Some c) s' (c :: ms_taken st) (ms_caps st).

(** The points reachable by [p*], longest first. *)
Fixpoint greedy (p : ascii -> bool) (s : str) (st : mstate) : list mstate :=
  match s with
  | c :: s' => if p c then greedy p s' (advance c s' st) ++ [st] else [st]
  | [] => [st]
  end.

(** The points reachable by [p*?], shortest first. *)
Fixpoint lazy (p : ascii -> bool) (s : str) (st : mstate) : list mstate :=
  match s with
  | c :: s' => if p c then st :: lazy p s' (advance c s' st) else [st]
  | [] => [st]
  end.

Definition close_group (n : nat) (st st' : mstate) : mstate :=
  MState (ms_prev st') (ms_rest st') (ms_taken st')
         ((n, rev (firstn (length (ms_taken st') - length (ms_taken st)) (ms_taken st')))
            :: ms_caps st').

Definition opt_word (o : option ascii) : bool :=
  match o with Some c => is_word c | None => false end.

(** All the ways [r] matches from [st], in the order in which a
    backtracking matcher tries them. *)
Fixpoint run (r : regex) (st : mstate) : list mstate :=
  match r with
  | Eps => [st]
  | Cls p =>
      match ms_rest st with
      | c :: s' => if p c then [advance c s' st] else []
      | [] => []
      end
  | Seq a b => flat_map (run b) (run a st)
  | Alt a b => run a st ++ run b st
  | Star p => greedy p (ms_rest st) st
  | LazyStar p => lazy p (ms_rest st) st
  | Grp n a => map (close_group n st) (run a st)
  | Bol =>
      match ms_prev st with
      | None => [st]
      | Some c => if Ascii.eqb c nl then [st] else []
      end
  | WordB =>
      if xorb (opt_word (ms_prev st)) (opt_word (hd_error (ms_rest st)))
      then [st] else []
  | Look a =>
      match run a st with
      | [] => []
      | _ :: _ => [st]
      end
  end.

(** A match object: [group(0)] and the numbered groups. *)
Record rmatch : Type := RMatch {
  m_text : str;
  m_caps : list (nat * str)
}.

Fixpoint lookup (n : nat) (l : list (nat * str)) : option str :=
  match l with
  | [] => None
  | (k, v) :: l' => if Nat.eqb k n then Some v else lookup n l'
  end.

(** [m.group(n)], [None] when the group took no part in the match. *)
Definition group (m : rmatch) (n : nat) : option str :=
  match n with
  | 0 => Some (m_text m)
  | _ => lookup n (m_caps m)
  end.

(** [m.group(n) or ''], also what a template inserts for [\n]. *)
Definition group_or_empty (m : rmatch) (n : nat) : str :=
  match group m n with Some t => t | None => [] end.

(** [r.match] at the head of [s], the character before it being [prev]. *)
Definition match_here (r : regex) (prev : option ascii) (s : str)
    : option (rmatch * str) :=
  match run r (MState prev s [] []) with
  | [] => None
  | st :: _ => Some (RMatch (rev (ms_taken st)) (ms_caps st), ms_rest st)
  end.

(** [re.search(r, s)]. *)
Definition search (r : regex) (s : str) : option rmatch :=
  first_match (match_here r) None s.

Definition found (r : regex) (s : str) : bool :=
  match search r s with Some _ => true | None => false end.

(** The scan behind [re.sub] and [re.finditer]. *)
Definition finditer (r : regex) (s : str) : list (item rmatch) :=
  items (match_here r) s.

(** [re.sub(r, f, s)] with a function [f]. *)
Definition sub_fun (r : regex) (f : rmatch -> str) (s : str) : str :=
  render f (finditer r s).

(** *** Pattern notation *)

Definition chr (c : ascii) : regex := Cls (Ascii.eqb c).

(** A character under [re.IGNORECASE]. *)
Definition chr_i (c : ascii) : regex :=
  Cls (fun x => Ascii.eqb (fold_case x) (fold_case c)).

Fixpoint seq_of (l : list regex) : regex :=
  match l with
  | [] => Eps
  | [r] => r
  | r :: l' => Seq r (seq_of l')
  end.

Definition lit (s : str) : regex := seq_of (map chr s).
Definition lit_i (s : str) : regex := seq_of (map chr_i s).

Definition any_of (s : str) (c : ascii) : bool := existsb (Ascii.eqb c) s.
Definition none_of (s : str) (c : ascii) : bool := negb (any_of s c).
Definition any_char (c : ascii) : bool := true.

Definition Plus (p : ascii -> bool) : regex := Seq (Cls p) (Star p).
Definition Opt (a : regex) : regex := Alt a Eps.

(** The class [`'] (or ['`]). *)
Definition quote : regex := Cls (any_of [dq; sq]).
Definition not_quote (c : ascii) : bool := none_of [dq; sq] c.
Definition not_gt (c : ascii) : bool := none_of (py ">") c.

(** *** Replacement templates *)

Inductive tpl_item : Type :=
| TLit (c : ascii)
| TRef (n : nat).

Definition is_octal (c : ascii) : bool := between 48 55 c.
Definition digit_val (c : ascii) : nat := N.to_nat (code c) - 48.

Fixpoint take_digits (s : str) : str * str :=
  match s with
  | c :: s' =>
      if is_digit c then let (d, r) := take_digits s' in (c :: d, r) else ([], s)
  | [] => ([], [])
  end.

Definition nat_of_digits (d : str) : nat :=
  fold_left (fun n c => 10 * n + digit_val c) d 0.

(** The escapes a template knows besides group references. *)
Definition escape_char (c : ascii) : option ascii :=
  if Ascii.eqb c "a" then Some "007"%char
  else if Ascii.eqb c "b" then Some "008"%char
  else if Ascii.eqb c "f" then Some "012"%char
  else if Ascii.eqb c "n" then Some "010"%char
  else if Ascii.eqb c "r" then Some "013"%char
  else if Ascii.eqb c "t" then Some "009"%char
  else if Ascii.eqb c "v" then Some "011"%char
  else if Ascii.eqb c "\" then Some "\"%char
  else None.

(** One escape, the backslash already read: the items it stands for and
    what follows it; [None] is [re.error].  [groups] is the number of
    groups of the pattern. *)
Definition parse_escape (groups : nat) (s : str) : option (list tpl_item * str) :=
  match s with
  | [] => None
  | c :: s1 =>
      if Ascii.eqb c "g" then
        match s1 with
        | lt :: s2 =>
            if Ascii.eqb lt "<" then
              let (d, s3) := take_digits s2 in
              match d, s3 with
              | _ :: _, gt :: s4 =>
                  if Ascii.eqb gt ">" && (nat_of_digits d <=? groups)
                  then Some ([TRef (nat_of_digits d)], s4) else None
              | _, _ => None
              end
            else None
        | [] => None
        end
      else if Ascii.eqb c "0" then
        match s1 with
        | d1 :: s2 =>
            if is_octal d1 then
              match s2 with
              | d2 :: s3 =>
                  if is_octal d2
                  then Some ([TLit (ascii_of_nat (8 * digit_val d1 + digit_val d2))], s3)
                  else Some ([TLit (ascii_of_nat (digit_val d1))], s2)
              | [] => Some ([TLit (ascii_of_nat (digit_val d1))], s2)
              end
            else Some ([TLit zero], s1)
        | [] => Some ([TLit zero], s1)
        end
      else if is_digit c then
        match s1 with
        | d1 :: s2 =>
            if is_digit d1 then
              match s2 with
              | d2 :: s3 =>
                  if is_octal c && is_octal d1 && is_octal d2 then
                    let v := 64 * digit_val c + 8 * digit_val d1 + digit_val d2 in
                    if v <=? 255 then Some ([TLit (ascii_of_nat v)], s3) else None
                  else if 10 * digit_val c + digit_val d1 <=? groups
                       then Some ([TRef (10 * digit_val c + digit_val d1)], s2)
                       else None
              | [] =>
                  if 10 * digit_val c + digit_val d1 <=? groups
                  then Some ([TRef (10 * digit_val c + digit_val d1)], s2)
                  else None
              end
            else if digit_val c <=? groups then Some ([TRef (digit_val c)], s1) else None
        | [] => if digit_val c <=? groups then Some ([TRef (digit_val c)], s1) else None
        end
      else
        match escape_char c with
        | Some e => Some ([TLit e], s1)
        | None =>
            if is_ascii_letter c then None
            else Some ([TLit "\"%char; TLit c], s1)
        end
  end.

(** The template is read before any matching is done. *)
Fixpoint parse_template_fuel (fuel groups : nat) (s : str) : option (list tpl_item) :=
  match fuel with
  | 0 => Some []
  | S fuel' =>
      match s with
      | [] => Some []
      | c :: s' =>
          if Ascii.eqb c "\" then
            match parse_escape groups s' with
            | Some (its, rest) =>
                option_map (app its) (parse_template_fuel fuel' groups rest)
            | None => None
            end
          else option_map (cons (TLit c)) (parse_template_fuel fuel' groups s')
      end
  end.

Definition parse_template (groups : nat) (s : str) : option (list tpl_item) :=
  parse_template_fuel (length s) groups s.

Definition expand (t : list tpl_item) (m : rmatch) : str :=
  flat_map (fun it => match it with
                      | TLit c => [c]
                      | TRef n => group_or_empty m n
                      end) t.

(** [re.sub(r, repl, s)] with a string [repl]; [None] is [re.error]. *)
Definition sub (groups : nat) (r : regex) (repl : str) (s : str) : option str :=
  match parse_template groups repl with
  | Some t => Some (sub_fun r (expand t) s)
  | None => None
  end.

(** A template is read off its text when that has no backslash. *)
Definition sub_lit (r : regex) (repl : str) (s : str) : str :=
  sub_fun r (fun _ => repl) s.

End Re.
Import Re.

(** ** The tag stripper *)

(** [<z\s+class=['`]s['`]>] *)
Definition z_s_open : regex :=
  seq_of [lit (py "<z"); Plus is_space; lit (py "class="); quote; chr "s"; quote; chr ">"].

(** [<z\s+class=[`']w[`']>] *)
Definition z_w_open : regex :=
  seq_of [lit (py "<z"); Plus is_space; lit (py "class="); quote; chr "w"; quote; chr ">"].

(** [</z>] *)
Definition z_close : regex := lit (py "</z>").

(** [<br\s*/?\s*>] under IGNORECASE *)
Definition br_plain : regex :=
  seq_of [lit_i (py "<br"); Star is_space; Opt (chr "/"); Star is_space; chr ">"].

(** [<[^>]+>] *)
Definition any_tag : regex := seq_of [chr "<"; Plus not_gt; chr ">"].

(** [\s+] *)
Definition spaces : regex := Plus is_space.

(** [extract_text_from_html]; the result [None] is Python's [None]. *)
Definition extract_text_from_html (html_content : str) : option str :=
  if negb (truthy html_content) then None
  else
    let text := sub_lit z_s_open [] html_content in
    let text := sub_lit z_w_open [] text in
    let text := sub_lit z_close [] text in
    let text := sub_lit br_plain (py " ") text in
    let text := sub_lit any_tag [] text in
    let text := sub_lit spaces (py " ") text in
    let text := strip text in
    if truthy text then Some text else None.

(** ** Run-time configuration

    The module-level names the passes read: they are set once by
    [init_config] and [main] before any page is generated. *)



(** ** The path rewriter *)





(** ** The accessibility pass *)




(** ** The sequential id assigner *)

Definition elements_needing_ids : list str :=
  map py ["p"; "h1"; "h2"; "h3"; "h4"; "h5"; "h6"; "div"; "section"; "article";
          "nav"; "header"; "footer"; "aside"; "main"; "ul"; "ol"; "li";
          "dl"; "dt"; "dd"; "blockquote"; "figure"; "figcaption"; "table";
          "thead"; "tbody"; "tfoot"; "tr"].

Definition mem_str (s : str) (l : list str) : bool := existsb (str_eqb s) l.

(** [(?P<prefix>^|\s+)<(?P<tag>\w+)(?P<attrs>(?:\s+[^>]*?)?)(?P<self_closing>/?)>]
    under MULTILINE and DOTALL; the groups are numbered 1 to 4. *)
Definition tag_pattern : regex :=
  seq_of [Grp 1 (Alt Bol (Plus is_space));
          chr "<";
          Grp 2 (Plus is_word);
          Grp 3 (Opt (Seq (Plus is_space) (LazyStar not_gt)));
          Grp 4 (Opt (chr "/"));
          chr ">"].

(** [\bid\s*=\s*[`']([^`']+)[`']] under IGNORECASE *)
Definition id_attr : regex :=
  seq_of [WordB; lit_i (py "id"); Star is_space; chr "="; Star is_space;
          quote; Grp 1 (Plus not_quote); quote].

(** [f'page_{page_number}_{element_counter}'] *)
Definition unique_id (page_number element_counter : nat) : str :=
  py "page_" ++ str_of_nat page_number ++ py "_" ++ str_of_nat element_counter.

(** The callback of [ensure_unique_ids]; the counter it closes over is
    passed in and out. *)
Definition add_id_to_tag (page_number : nat) (m : rmatch) (element_counter : nat)
    : str * nat :=
  let prefix := group_or_empty m 1 in
  let tag := map lower (group_or_empty m 2) in
  let attrs := group_or_empty m 3 in
  let self_closing := group_or_empty m 4 in
  let original_tag := group_or_empty m 2 in
  if negb (mem_str tag elements_needing_ids) then (m_text m, element_counter)
  else if found id_attr attrs then (m_text m, element_counter)
  else
    let element_counter := element_counter + 1 in
    let unique_id := unique_id page_number element_counter in
    let new_attrs :=
      if truthy (strip attrs)
      then attrs ++ py " id=`" ++ unique_id ++ py "`"
      else py " id=`" ++ unique_id ++ py "`" in
    (prefix ++ py "<" ++ original_tag ++ new_attrs ++ self_closing ++ py ">",
     element_counter).

Definition ensure_unique_ids (html_content : str) (page_number element_counter : nat)
    : str * nat :=
  if negb (truthy html_content) || negb (truthy (strip html_content))
  then (html_content, element_counter)
  else render_st (add_id_to_tag page_number) (finditer tag_pattern html_content)
                 element_counter.

(** ** The copyright page restructurer *)

Definition is_copyright (page_id : str) : bool :=
  str_eqb page_id (py "crt") || startswith page_id (py "copyright").

(** [<p\s+class=[`']nonindent1[`']([^>]* )>(.*?)</p>] under DOTALL *)
Definition p_nonindent1 : regex :=
  seq_of [lit (py "<p"); Plus is_space; lit (py "class="); quote;
          lit (py "nonindent1"); quote; Grp 1 (Star not_gt); chr ">";
          Grp 2 (LazyStar any_char); lit (py "</p>")].

(** [<p\s+class=[`']nonindent[`']([^>]* )>(.*?Bestellers[^<]*?)</p>] under
    DOTALL and IGNORECASE *)
Definition p_bestellers : regex :=
  seq_of [lit_i (py "<p"); Plus is_space; lit_i (py "class="); quote;
          lit_i (py "nonindent"); quote; Grp 1 (Star not_gt); chr ">";
          Grp 2 (seq_of [LazyStar any_char; lit_i (py "Bestellers");
                         LazyStar (none_of (py "<"))]);
          lit_i (py "</p>")].

(** The templates [<h1\1>\2</h1>] and [<h2\1>\2</h2>]. *)
Definition heading_template (h : str) (m : rmatch) : str :=
  py "<" ++ h ++ group_or_empty m 1 ++ py ">" ++ group_or_empty m 2
     ++ py "</" ++ h ++ py ">".

Definition promote_headings (html_content : str) : str :=
  let html_content := sub_fun p_nonindent1 (heading_template (py "h1")) html_content in
  sub_fun p_bestellers (heading_template (py "h2")) html_content.

(** [<p([^>]* )>(.*?)</p>] under DOTALL *)
Definition p_para : regex :=
  seq_of [lit (py "<p"); Grp 1 (Star not_gt); chr ">";
          Grp 2 (LazyStar any_char); lit (py "</p>")].

(** [class=[`'](nonindent|crt)] *)
Definition special_class : regex :=
  seq_of [lit (py "class="); quote; Grp 1 (Alt (lit (py "nonindent")) (lit (py "crt")))].

(** [<h[1-6]] *)
Definition heading_open : regex := seq_of [lit (py "<h"); Cls (between 49 54)].

(** [content not in ['&#x00A0;', '&nbsp;', '']] *)
Definition not_blank_entity (content : str) : bool :=
  negb (mem_str content [py "&#x00A0;"; py "&nbsp;"; []]).

(** The test of the outer loop: the line holds a paragraph without a
    special class whose stripped content is something to list. *)
Definition starts_list (line : str) : bool :=
  match search p_para line with
  | Some p_match =>
      negb (found special_class (group_or_empty p_match 1))
      && (let content := strip (group_or_empty p_match 2) in
          truthy content && not_blank_entity content)
  | None => false
  end.

(** One turn of the inner loop on [lines[j]]: [Some content] when the line
    is taken as a list item, [None] when the loop breaks. *)
Definition list_item_of (current_line : str) : option str :=
  let current_p_match := search p_para current_line in
  if found heading_open current_line
     || match current_p_match with
        | Some m => found special_class (group_or_empty m 1)
        | None => truthy (strip current_line)
        end
  then None
  else
    match current_p_match with
    | Some m =>
        let current_content := strip (group_or_empty m 2) in
        if truthy current_content && not_blank_entity current_content
        then Some current_content
        else None
    | None => None
    end.

(** The inner loop from [lines[j:]]: the items collected and [lines[j:]]
    at the break. *)
Fixpoint collect_items (lines : list str) : list str * list str :=
  match lines with
  | [] => ([], [])
  | current_line :: lines' =>
      match list_item_of current_line with
      | Some content =>
          let (list_items, rest) := collect_items lines' in
          (content :: list_items, rest)
      | None => ([], lines)
      end
  end.

Definition ul_block (list_items : list str) : list str :=
  py "            <ul class=`bestellers_list`>"
  :: map (fun li_content => py "                <li>" ++ li_content ++ py "</li>") list_items
  ++ [py "            </ul>"].

(** The outer loop on [lines[i:]]; each turn moves [i] forward, so the
    number of lines left is fuel enough. *)
Fixpoint cluster_loop (fuel : nat) (lines : list str) : list str :=
  match fuel with
  | 0 => []
  | S fuel' =>
      match lines with
      | [] => []
      | line :: lines' =>
          if starts_list line then
            let (list_items, rest) := collect_items lines in
            if 2 <=? length list_items
            then ul_block list_items ++ cluster_loop fuel' rest
            else line :: cluster_loop fuel' lines'
          else line :: cluster_loop fuel' lines'
      end
  end.

Definition cluster_lists (lines : list str) : list str :=
  cluster_loop (length lines) lines.

(** [(<head>.*?</head>)] and [(<body>.*?</body>)] under DOTALL and
    IGNORECASE *)
Definition section_of (name : str) : regex :=
  Grp 1 (seq_of [lit_i (py "<" ++ name ++ py ">"); LazyStar any_char;
                 lit_i (py "</" ++ name ++ py ">")]).

(** [<head], [</head] and [<(link|meta|script|style|title)] under
    IGNORECASE *)
Definition head_open : regex := lit_i (py "<head").
Definition head_close : regex := lit_i (py "</head").
Definition head_like : regex :=
  seq_of [chr "<";
          Grp 1 (Alt (lit_i (py "link")) (Alt (lit_i (py "meta"))
                (Alt (lit_i (py "script")) (Alt (lit_i (py "style"))
                                               (lit_i (py "title"))))))].

(** [<ul([^>]* )>] and [<ul[^>]*>] under IGNORECASE, and the same for [li] *)
Definition open_tag_attrs (name : str) : regex :=
  seq_of [lit_i (py "<" ++ name); Grp 1 (Star not_gt); chr ">"].
Definition open_tag (name : str) : regex :=
  seq_of [lit_i (py "<" ++ name); Star not_gt; chr ">"].

(** [\s+id=[`'][^`']+[`']] *)
Definition id_to_drop : regex :=
  seq_of [Plus is_space; lit (py "id="); quote; Plus not_quote; quote].

(** [<(?P<tag>h[1-6]|p|div|section)(?P<attrs>(?:\s+[^>]*?)?)>] under
    IGNORECASE; the groups are numbered 1 and 2. *)
Definition block_tag : regex :=
  seq_of [chr "<";
          Grp 1 (Alt (Seq (chr_i "h") (Cls (between 49 54)))
                (Alt (chr_i "p") (Alt (lit_i (py "div")) (lit_i (py "section")))));
          Grp 2 (Opt (Seq (Plus is_space) (LazyStar not_gt)));
          chr ">"].

(** The attributes with any id dropped and the new id appended. *)
Definition with_new_id (attrs new_id : str) : str :=
  let attrs := sub_lit id_to_drop [] attrs in
  if truthy (strip attrs)
  then attrs ++ py " id=`" ++ new_id ++ py "`"
  else py " id=`" ++ new_id ++ py "`".

(** What the re-identification loop carries from line to line. *)
Record reid_state : Type := ReidState {
  element_counter : nat;
  current_ul_id : option str;
  li_counter : nat;
  in_head_section : bool
}.

Definition nested_or_head_tags : list str :=
  map py ["span"; "strong"; "em"; "a"; "br"; "sup"; "link"; "meta"; "script";
          "style"; "title"].

(** The callback [replace_element_id]. *)
Definition replace_element_id (page_num : nat) (m : rmatch) (element_counter : nat)
    : str * nat :=
  let tag := group_or_empty m 1 in
  let attrs := group_or_empty m 2 in
  if mem_str (map lower tag) nested_or_head_tags then (m_text m, element_counter)
  else
    let element_counter := element_counter + 1 in
    let new_id := unique_id page_num element_counter in
    (py "<" ++ tag ++ with_new_id attrs new_id ++ py ">", element_counter).

Definition opt_truthy (o : option str) : bool :=
  match o with Some s => truthy s | None => false end.

(** The part of the loop body that handles a [ul] tag. *)
Definition reid_ul (page_num : nat) (st : reid_state) (line : str)
    : option (reid_state * str * bool) :=
  match search (open_tag_attrs (py "ul")) line with
  | Some ul_match =>
      let ec := element_counter st + 1 in
      let ul_id := unique_id page_num ec in
      let new_attrs := with_new_id (group_or_empty ul_match 1) ul_id in
      match sub 0 (open_tag (py "ul")) (py "<ul" ++ new_attrs ++ py ">") line with
      | Some line' =>
          Some (ReidState ec (Some ul_id) 0 (in_head_section st), line', true)
      | None => None
      end
  | None => Some (st, line, false)
  end.

(** The part of the loop body that handles an [li] tag. *)
Definition reid_li (page_num : nat) (st : reid_state) (line : str)
    : option (reid_state * str * bool) :=
  match search (open_tag_attrs (py "li")) line with
  | Some li_match =>
      let lc := li_counter st + 1 in
      if opt_truthy (current_ul_id st) then
        let new_li_id :=
          match current_ul_id st with Some u => u | None => [] end
          ++ py "_" ++ str_of_nat lc in
        let new_attrs := with_new_id (group_or_empty li_match 1) new_li_id in
        match sub 0 (open_tag (py "li")) (py "<li" ++ new_attrs ++ py ">") line with
        | Some line' =>
            Some (ReidState (element_counter st) (current_ul_id st) lc
                            (in_head_section st), line', true)
        | None => None
        end
      else
        let ec := element_counter st + 1 in
        let new_li_id := unique_id page_num ec in
        let new_attrs := with_new_id (group_or_empty li_match 1) new_li_id in
        match sub 0 (open_tag (py "li")) (py "<li" ++ new_attrs ++ py ">") line with
        | Some line' =>
            Some (ReidState ec (current_ul_id st) lc (in_head_section st), line', true)
        | None => None
        end
  | None => Some (st, line, false)
  end.

(** The body of the re-identification loop: the state after the line and
    the line appended to [final_body_lines]; [None] is [re.error]. *)
Definition reid_line (page_num : nat) (st : reid_state) (line : str)
    : option (reid_state * str) :=
  if found head_open line then
    Some (ReidState (element_counter st) (current_ul_id st) (li_counter st) true, line)
  else if found head_close line then
    Some (ReidState (element_counter st) (current_ul_id st) (li_counter st) false, line)
  else if in_head_section st then Some (st, line)
  else if contains (py "pagebreak") line
          || (contains (py "sr-only") line && contains (py "pagebreak") line)
  then Some (st, line)
  else if found head_like line then Some (st, line)
  else
    match reid_ul page_num st line with
    | None => None
    | Some (st1, line1, ul_match) =>
        match reid_li page_num st1 line1 with
        | None => None
        | Some (st2, line2, li_match) =>
            if negb ul_match && negb li_match then
              let (line3, ec) :=
                render_st (replace_element_id page_num) (finditer block_tag line2)
                          (element_counter st2) in
              Some (ReidState ec (current_ul_id st2) (li_counter st2)
                              (in_head_section st2), line3)
            else Some (st2, line2)
        end
    end.

Fixpoint reid_lines (page_num : nat) (st : reid_state) (body_lines : list str)
    : option (list str) :=
  match body_lines with
  | [] => Some []
  | line :: body_lines' =>
      match reid_line page_num st line with
      | Some (st', line') => option_map (cons line') (reid_lines page_num st' body_lines')
      | None => None
      end
  end.

(** [page_number if page_number else 3] *)
Definition page_num_or_3 (page_number : option nat) : nat :=
  match page_number with
  | Some (S n) => S n
  | _ => 3
  end.

Definition convert_copyright_structure
    (html_content page_id : str) (page_number : option nat) : option str :=
  if negb (is_copyright page_id) then Some html_content
  else
    let html_content := promote_headings html_content in
    let lines := split_lines html_content in
    let result_lines := cluster_lists lines in
    let converted_html := join_lines result_lines in
    let head_match := search (section_of (py "head")) converted_html in
    let body_match := search (section_of (py "body")) converted_html in
    let body_content :=
      match body_match with
      | None => converted_html
      | Some b => group_or_empty b 1
      end in
    let page_num := page_num_or_3 page_number in
    match reid_lines page_num (ReidState 0 None 0 false) (split_lines body_content) with
    | None => None
    | Some final_body_lines =>
        let processed_body := join_lines final_body_lines in
        match head_match, body_match with
        | Some _, Some b =>
            Some (str_replace (group_or_empty b 1) processed_body converted_html)
        | _, _ => Some processed_body
        end
    end.

(** ** The page composer *)




















(** ** The page loop of [main] *)














(** * Vocabulary of the statements *)

(** A matcher is sound for [text] when a match and what follows it make
    up the subject. *)
Definition sound_for (A : Type) (try : option ascii -> str -> option (A * str))
    (text : A -> str) : Prop :=
  forall prev s a rest, try prev s = Some (a, rest) -> s = text a ++ rest.

(** Two points of one matching attempt: taken and rest make up the same
    subject. *)
Definition same_subject (st st' : mstate) : Prop :=
  rev (ms_taken st') ++ ms_rest st' = rev (ms_taken st) ++ ms_rest st.

(** ** The sequential id assigner *)

(** The test of the callback: the tag is on the allow-list and its
    attribute text shows no id. *)
Definition needs_id (m : rmatch) : bool :=
  mem_str (map lower (group_or_empty m 2)) elements_needing_ids
  && negb (found id_attr (group_or_empty m 3)).

(** The tag of [m] with the id numbered [k] added after its attributes. *)
Definition tag_with_id (p k : nat) (m : rmatch) : str :=
  group_or_empty m 1 ++ py "<" ++ group_or_empty m 2
  ++ (if truthy (strip (group_or_empty m 3))
      then group_or_empty m 3 ++ py " id=`" ++ unique_id p k ++ py "`"
      else py " id=`" ++ unique_id p k ++ py "`")
  ++ group_or_empty m 4 ++ py ">".

Definition count_needing (l : list (item rmatch)) : nat :=
  length (filter needs_id (matches_of l)).

(** What the item [it] becomes when the items [before] precede it and the
    counter came in as [c]. *)
Definition piece (p c : nat) (before : list (item rmatch)) (it : item rmatch) : str :=
  match it with
  | IChar ch => [ch]
  | IMatch m =>
      if needs_id m then tag_with_id p (c + 1 + count_needing before) m
      else m_text m
  end.

(** The guard of [ensure_unique_ids]: empty or all whitespace. *)
Definition blank (s : str) : bool := negb (truthy s) || negb (truthy (strip s)).

(** ** The re-identification scan *)

(** The list in progress, when there is one, was numbered by this scan. *)
Definition ul_id_ok (p : nat) (st : reid_state) : Prop :=
  match current_ul_id st with
  | None => True
  | Some u => exists k, 1 <= k <= element_counter st /\ u = unique_id p k
  end.

Definition same_counters (st st' : reid_state) : Prop :=
  element_counter st' = element_counter st
  /\ current_ul_id st' = current_ul_id st
  /\ li_counter st' = li_counter st.

(** The page-break marker line that [generate_html_page] emits for page 3. *)
Definition pagebreak_line : str :=
  py "            <span epub:type=`pagebreak` role=`doc-pagebreak` id=`pagebreak_3`><span class=`sr-only`>Page 3</span></span>".

(** ** Replacement templates *)

Definition backslash : ascii := "\"%char.

(** Text that a template copies as it stands. *)
Definition plain (s : str) : Prop := Forall (fun c => c <> backslash) s.

(** Every match is replaced by a text that ends with [tail]. *)
Definition rewritten_to_end_with (r : regex) (tail line line' : str) : Prop :=
  exists f, line' = sub_fun r (fun m => f m ++ tail) line.

(** ** Identifiers written on the copyright page without a page number *)

Definition page_3_id (k : nat) : str := py "page_3_" ++ str_of_nat k.

Definition page_3_item_id (k j : nat) : str :=
  py "page_3_" ++ str_of_nat k ++ py "_" ++ str_of_nat j.

(** The end of an opening tag that carries the identifier [id] last. *)
Definition id_tail (id : str) : str := py " id=`" ++ id ++ py "`>".

(** The callback of the block pass skips a tag whose name is on its list
    of nested or head tags. *)
Definition reidentified (m : rmatch) : bool :=
  negb (mem_str (map lower (group_or_empty m 1)) nested_or_head_tags).

Definition count_reidentified (l : list (item rmatch)) : nat :=
  length (filter reidentified (matches_of l)).

(** What the item [it] of a line becomes in the block pass when the items
    [before] precede it on the line and the counter came in as [c]. *)
Definition block_piece (c : nat) (before : list (item rmatch)) (it : item rmatch) : str :=
  match it with
  | IChar ch => [ch]
  | IMatch m =>
      if reidentified m
      then py "<" ++ group_or_empty m 1
           ++ with_new_id (group_or_empty m 2) (page_3_id (c + 1 + count_reidentified before))
           ++ py ">"
      else m_text m
  end.

(** What the re-identification scan can make of a line in state [st]. *)
Inductive written_by_reid (st : reid_state) (line line' : str) : Prop :=
| reid_kept :
    line' = line -> written_by_reid st line line'
| reid_list :
    rewritten_to_end_with (open_tag (py "ul"))
      (id_tail (page_3_id (element_counter st + 1))) line line' ->
    written_by_reid st line line'
| reid_list_and_item : forall line1,
    rewritten_to_end_with (open_tag (py "ul"))
      (id_tail (page_3_id (element_counter st + 1))) line line1 ->
    rewritten_to_end_with (open_tag (py "li"))
      (id_tail (page_3_item_id (element_counter st + 1) 1)) line1 line' ->
    written_by_reid st line line'
| reid_item_in_list : forall k,
    current_ul_id st = Some (page_3_id k) ->
    rewritten_to_end_with (open_tag (py "li"))
      (id_tail (page_3_item_id k (li_counter st + 1))) line line' ->
    written_by_reid st line line'
| reid_item_without_list :
    current_ul_id st = None ->
    rewritten_to_end_with (open_tag (py "li"))
      (id_tail (page_3_id (element_counter st + 1))) line line' ->
    written_by_reid st line line'
| reid_blocks : forall pieces,
    line' = concat pieces ->
    length pieces = length (finditer block_tag line) ->
    (forall i it, nth_error (finditer block_tag line) i = Some it ->
       nth_error pieces i
       = Some (block_piece (element_counter st) (firstn i (finditer block_tag line)) it)) ->
    written_by_reid st line line'.

(** ** List clustering *)






(** ** The page loop *)











(** ** Identifiers of a page *)








(** ** Vocabulary for the matcher on tags *)

(** The point reached from [st] by taking [w], what follows being [t]. *)
Definition advance_over (w t : str) (st : mstate) : mstate :=
  MState (match rev w with [] => ms_prev st | c :: _ => Some c end)
         t (rev w ++ ms_taken st) (ms_caps st).

(** The next character at [st] is in the class [p]. *)
Definition headed (p : ascii -> bool) (st : mstate) : Prop :=
  match ms_rest st with c :: _ => p c = true | [] => False end.

(** What stops a stretch of [p]: the end, or a character outside [p]. *)
Definition stops (p : ascii -> bool) (t : str) : Prop :=
  match t with [] => True | c :: _ => p c = false end.





(** ** The accessibility pass *)










(** The text ends as a self-closing tag does. *)
Definition self_closing (s : str) : bool :=
  match rev s with
  | c :: d :: _ => Ascii.eqb c ">" && Ascii.eqb d "/"
  | _ => false
  end.




(** * Properties *)

(** ** The scan *)

Section ScanFacts.
Variable A : Type.
Variable try : option ascii -> str -> option (A * str).





Lemma render_app : forall (f : A -> str) l1 l2,
    render f (l1 ++ l2) = render f l1 ++ render f l2.
  Proof. intros. unfold render. apply flat_map_app. Qed.

Lemma render_text_scan : forall text, sound_for try text ->
    forall fuel prev s, length s < fuel -> render text (scan try fuel prev s) = s.
  Proof.
    intros text Hs. induction fuel as [|f IH]; intros prev s L; [lia|].
    simpl. destruct (try prev s) as [[a rest]|] eqn:E.
    - pose proof (Hs _ _ _ _ E) as Hd.
      destruct (length rest <? length s) eqn:El.
      + apply Nat.ltb_lt in El. simpl. rewrite IH by lia. symmetry; exact Hd.
      + apply Nat.ltb_ge in El.
        assert (Ht : text a = []).
        { apply (f_equal (@length _)) in Hd. rewrite length_app in Hd.
          destruct (text a); [reflexivity|simpl in Hd; lia]. }
        simpl. rewrite Ht. simpl.
        destruct s as [|c s']; simpl; [reflexivity|].
        rewrite IH by (simpl in L; lia). reflexivity.
    - destruct s as [|c s']; simpl; [reflexivity|].
      rewrite IH by (simpl in L; lia). reflexivity.
  Qed.

  (** Putting every match back in its place gives the subject back. *)
Lemma render_text_items : forall text, sound_for try text ->
    forall s, render text (items try s) = s.
  Proof. intros. apply render_text_scan; auto. Qed.
End ScanFacts.

(** ** The matcher takes a prefix of the subject *)

Lemma greedy_sound : forall p s st st',
  ms_rest st = s -> In st' (greedy p s st) -> same_subject st st'.
Proof.
  induction s as [|c s IH]; intros st st' Hr Hin; simpl in Hin.
  - destruct Hin as [<-|[]]. reflexivity.
  - destruct (p c).
    + apply in_app_or in Hin. destruct Hin as [Hin|[<-|[]]]; [|reflexivity].
      apply IH in Hin; [|reflexivity]. unfold same_subject in *. rewrite Hin. simpl.
      rewrite Hr. rewrite <- app_assoc. reflexivity.
    + destruct Hin as [<-|[]]. reflexivity.
Qed.

Lemma lazy_sound : forall p s st st',
  ms_rest st = s -> In st' (lazy p s st) -> same_subject st st'.
Proof.
  induction s as [|c s IH]; intros st st' Hr Hin; simpl in Hin.
  - destruct Hin as [<-|[]]. reflexivity.
  - destruct (p c).
    + destruct Hin as [<-|Hin]; [reflexivity|].
      apply IH in Hin; [|reflexivity]. unfold same_subject in *. rewrite Hin. simpl.
      rewrite Hr. rewrite <- app_assoc. reflexivity.
    + destruct Hin as [<-|[]]. reflexivity.
Qed.

Lemma run_sound : forall r st st', In st' (run r st) -> same_subject st st'.
Proof.
  induction r; intros st st' Hin; simpl in Hin.
  - destruct Hin as [<-|[]]. reflexivity.
  - destruct (ms_rest st) as [|c s'] eqn:E; [destruct Hin|].
    destruct (p c); [|destruct Hin]. destruct Hin as [<-|[]].
    unfold same_subject. simpl. rewrite E, <- app_assoc. reflexivity.
  - apply in_flat_map in Hin. destruct Hin as [mid [H1 H2]].
    apply IHr1 in H1. apply IHr2 in H2. unfold same_subject in *. congruence.
  - apply in_app_or in Hin. destruct Hin; auto.
  - eapply greedy_sound; eauto.
  - eapply lazy_sound; eauto.
  - apply in_map_iff in Hin. destruct Hin as [x [<- Hx]]. apply IHr in Hx.
    exact Hx.
  - destruct (ms_prev st) as [c|]; [destruct (Ascii.eqb c nl)|];
      try destruct Hin as [<-|[]]; try reflexivity. destruct Hin.
  - destruct (xorb _ _); [destruct Hin as [<-|[]]; reflexivity|destruct Hin].
  - destruct (run r st); [destruct Hin|]. destruct Hin as [<-|[]]. reflexivity.
Qed.

Lemma match_here_sound : forall r, sound_for (match_here r) m_text.
Proof.
  intros r prev s m rest H. unfold match_here in H.
  destruct (run r (MState prev s [] [])) as [|st l] eqn:E; [discriminate|].
  injection H as <- <-. simpl.
  assert (Hin : In st (run r (MState prev s [] []))) by (rewrite E; left; reflexivity).
  apply run_sound in Hin. unfold same_subject in Hin. simpl in Hin. symmetry. exact Hin.
Qed.

(** Replacing every match by itself changes nothing. *)
Lemma sub_fun_identity : forall r s, sub_fun r m_text s = s.
Proof. intros. apply render_text_items. apply match_here_sound. Qed.

(** ** The sequential id assigner *)

Lemma add_id_to_tag_spec : forall p m c,
  add_id_to_tag p m c =
  if needs_id m then (tag_with_id p (c + 1) m, c + 1) else (m_text m, c).
Proof.
  intros. unfold add_id_to_tag, needs_id, tag_with_id.
  destruct (mem_str _ elements_needing_ids); simpl; [|reflexivity].
  destruct (found id_attr _); simpl; reflexivity.
Qed.

Lemma count_needing_cons : forall it l,
  count_needing (it :: l) =
  (match it with IMatch m => if needs_id m then 1 else 0 | IChar _ => 0 end)
  + count_needing l.
Proof.
  intros. unfold count_needing, matches_of. simpl.
  destruct it as [ch|m]; simpl; [reflexivity|].
  destruct (needs_id m); reflexivity.
Qed.

Lemma render_st_numbered : forall p l c,
  exists pieces,
    render_st (add_id_to_tag p) l c = (concat pieces, c + count_needing l)
    /\ length pieces = length l
    /\ forall i it, nth_error l i = Some it ->
         nth_error pieces i = Some (piece p c (firstn i l) it).
Proof.
  induction l as [|it l IH]; intros c.
  - exists []. simpl. split; [|split].
    + f_equal. unfold count_needing. simpl. lia.
    + reflexivity.
    + intros [|i] it H; discriminate.
  - destruct it as [ch|m].
    + destruct (IH c) as [ps [H1 [H2 H3]]].
      exists ([ch] :: ps). simpl. rewrite H1. rewrite count_needing_cons. simpl.
      split; [reflexivity|]. split; [congruence|].
      intros [|i] it H; simpl in *.
      * injection H as <-. reflexivity.
      * rewrite (H3 _ _ H). apply (f_equal Some). destruct it; simpl; [reflexivity|].
        rewrite count_needing_cons. reflexivity.
    + simpl. rewrite add_id_to_tag_spec. rewrite count_needing_cons.
      destruct (needs_id m) eqn:En.
      * destruct (IH (c + 1)) as [ps [H1 [H2 H3]]].
        exists (tag_with_id p (c + 1) m :: ps). rewrite H1. simpl.
        split; [f_equal; lia|]. split; [congruence|].
        intros [|i] it H; simpl in *.
        -- injection H as <-. simpl. rewrite En. unfold count_needing. simpl.
           rewrite Nat.add_0_r. reflexivity.
        -- rewrite (H3 _ _ H). apply (f_equal Some). destruct it as [|m']; simpl; [reflexivity|].
           rewrite count_needing_cons, En.
           replace (c + 1 + (1 + count_needing (firstn i l)))
             with (c + 1 + 1 + count_needing (firstn i l)) by lia. reflexivity.
      * destruct (IH c) as [ps [H1 [H2 H3]]].
        exists (m_text m :: ps). rewrite H1. simpl.
        split; [f_equal; lia|]. split; [congruence|].
        intros [|i] it H; simpl in *.
        -- injection H as <-. simpl. rewrite En. reflexivity.
        -- rewrite (H3 _ _ H). apply (f_equal Some). destruct it as [|m']; simpl; [reflexivity|].
           rewrite count_needing_cons, En. reflexivity.
Qed.


(** C2.  [ensure_unique_ids] scans the fragment once, left to right.  Each
    tag the scan finds that is on the allow-list and shows no id gets the
    identifier [page_p_k], where [k] is the incoming counter plus one plus
    the number of such tags before it; every other tag, among them those
    that already carry an id, is copied as it stands and takes no counter
    value.  The fragment so rewritten is returned with the counter advanced
    by the number of identifiers assigned.  (A fragment that is empty or
    all whitespace is returned as it is.) *)
Theorem ensure_unique_ids_numbers_in_order : forall html_content p c,
  let tags := finditer tag_pattern html_content in
  exists pieces,
    ensure_unique_ids html_content p c =
      (if blank html_content then (html_content, c)
       else (concat pieces, c + count_needing tags))
    /\ length pieces = length tags
    /\ forall i it, nth_error tags i = Some it ->
         nth_error pieces i = Some (piece p c (firstn i tags) it).
Proof.
  intros html_content p c tags.
  destruct (render_st_numbered p tags c) as [ps [H1 [H2 H3]]].
  exists ps. split; [|split; assumption].
  unfold ensure_unique_ids, blank.
  destruct (negb (truthy html_content) || negb (truthy (strip html_content)));
    [reflexivity|exact H1].
Qed.

Lemma render_st_untouched : forall p l c,
  (forall m, In m (matches_of l) -> needs_id m = false) ->
  render_st (add_id_to_tag p) l c = (render m_text l, c).
Proof.
  induction l as [|it l IH]; intros c H; [reflexivity|].
  destruct it as [ch|m]; simpl.
  - rewrite IH; [reflexivity|]. intros m Hm. apply H. exact Hm.
  - rewrite add_id_to_tag_spec, (H m) by (left; reflexivity).
    rewrite IH; [reflexivity|]. intros m' Hm. apply H. right. exact Hm.
Qed.

(** C3.  When every allow-listed tag that the scan finds already carries
    an id, [ensure_unique_ids] returns the fragment character for character
    and the counter it was given. *)
Theorem ensure_unique_ids_noop_when_identified : forall html_content p c,
  (forall m, In m (matches_of (finditer tag_pattern html_content)) ->
     mem_str (map lower (group_or_empty m 2)) elements_needing_ids = true ->
     found id_attr (group_or_empty m 3) = true) ->
  ensure_unique_ids html_content p c = (html_content, c).
Proof.
  intros html_content p c H. unfold ensure_unique_ids.
  destruct (negb (truthy html_content) || negb (truthy (strip html_content)));
    [reflexivity|].
  rewrite render_st_untouched.
  - f_equal. apply (sub_fun_identity tag_pattern).
  - intros m Hm. unfold needs_id.
    destruct (mem_str _ elements_needing_ids) eqn:E; [|reflexivity].
    rewrite (H m Hm E). reflexivity.
Qed.

Lemma ensure_unique_ids_noop_witness :
  ensure_unique_ids (py "<p id=`a`>x</p> <div class=`c` id='b'>y</div> <span>z</span>") 4 7
  = (py "<p id=`a`>x</p> <div class=`c` id='b'>y</div> <span>z</span>", 7).
Proof.
  apply ensure_unique_ids_noop_when_identified.
  intros m Hm Hallow. vm_compute in Hm.
  destruct Hm as [<-|[<-|[<-|[]]]]; try reflexivity.
  vm_compute in Hallow. discriminate Hallow.
Defined.

(** ** The re-identification scan *)

Lemma reid_line_pagebreak : forall page_num st line,
  contains (py "pagebreak") line = true ->
  exists st', reid_line page_num st line = Some (st', line) /\ same_counters st st'.
Proof.
  intros page_num st line H. unfold reid_line, same_counters.
  destruct (found head_open line).
  { eexists. split; [reflexivity|]. simpl. auto. }
  destruct (found head_close line).
  { eexists. split; [reflexivity|]. simpl. auto. }
  destruct (in_head_section st).
  { eexists. split; [reflexivity|]. auto. }
  rewrite H. simpl.
  eexists. split; [reflexivity|]. auto.
Qed.

Lemma reid_lines_pagebreak : forall page_num lines st out,
  reid_lines page_num st lines = Some out ->
  length out = length lines
  /\ forall i line, nth_error lines i = Some line ->
       contains (py "pagebreak") line = true -> nth_error out i = Some line.
Proof.
  induction lines as [|l lines IH]; intros st out H; simpl in H.
  - injection H as <-. split; [reflexivity|]. intros [|i] line Hn; discriminate.
  - destruct (reid_line page_num st l) as [[st' l']|] eqn:E; [|discriminate].
    destruct (reid_lines page_num st' lines) as [out'|] eqn:E2; [|discriminate].
    simpl in H. injection H as <-.
    destruct (IH _ _ E2) as [HL HN]. split; [simpl; congruence|].
    intros [|i] line Hn Hc; simpl in *.
    + injection Hn as ->.
      destruct (reid_line_pagebreak page_num st line Hc) as [st2 [E3 _]].
      congruence.
    + eauto.
Qed.

(** C10.  In the re-identification scan of the copyright page, a line that
    contains [pagebreak] is appended to the output as it is, whatever the
    state of the scan, and leaves the element counter, the current list id
    and the item counter as they were; so in the output of the whole scan
    such a line stands unchanged at its position: the page-break span keeps
    its [pagebreak_n] id, gets no [page_n_k] id and takes no counter
    value. *)
Theorem pagebreak_lines_pass_unchanged : forall page_num,
  (forall st line, contains (py "pagebreak") line = true ->
     exists st', reid_line page_num st line = Some (st', line) /\ same_counters st st')
  /\ (forall st lines out, reid_lines page_num st lines = Some out ->
        length out = length lines
        /\ forall i line, nth_error lines i = Some line ->
             contains (py "pagebreak") line = true -> nth_error out i = Some line).
Proof.
  intros page_num. split.
  - apply reid_line_pagebreak.
  - intros st lines out. apply reid_lines_pagebreak.
Qed.

Lemma pagebreak_lines_pass_unchanged_witness :
  contains (py "pagebreak") pagebreak_line = true
  /\ exists st', reid_line 3 (ReidState 4 None 0 false) pagebreak_line = Some (st', pagebreak_line)
                 /\ same_counters (ReidState 4 None 0 false) st'.
Proof.
  split; [reflexivity|].
  apply (proj1 (pagebreak_lines_pass_unchanged 3)). reflexivity.
Defined.

Lemma replace_element_id_counter : forall p l c,
  c <= snd (render_st (replace_element_id p) l c).
Proof.
  induction l as [|it l IH]; intros c; simpl; [lia|].
  destruct it as [ch|m].
  - specialize (IH c). destruct (render_st (replace_element_id p) l c). simpl in *. lia.
  - unfold replace_element_id at 1.
    destruct (mem_str _ nested_or_head_tags).
    + specialize (IH c). destruct (render_st (replace_element_id p) l c). simpl in *. lia.
    + specialize (IH (c + 1)).
      destruct (render_st (replace_element_id p) l (c + 1)). simpl in *. lia.
Qed.

Lemma ul_id_ok_mono : forall p ec ec' u lc lc' h h',
  ec <= ec' -> ul_id_ok p (ReidState ec u lc h) -> ul_id_ok p (ReidState ec' u lc' h').
Proof.
  intros p ec ec' u lc lc' h h' L H. unfold ul_id_ok in *. simpl in *.
  destruct u as [u|]; [|exact I]. destruct H as [k [Hk ->]]. exists k. split; [lia|reflexivity].
Qed.

Lemma reid_ul_ok : forall p st line st' line' b,
  reid_ul p st line = Some (st', line', b) ->
  ul_id_ok p st -> ul_id_ok p st' /\ element_counter st <= element_counter st'.
Proof.
  intros p st line st' line' b H Hok. unfold reid_ul in H.
  destruct (search (open_tag_attrs (py "ul")) line).
  - destruct (sub 0 _ _ line); [|discriminate]. injection H as <- <- <-.
    split; [|simpl; lia]. unfold ul_id_ok. simpl.
    exists (element_counter st + 1). split; [lia|reflexivity].
  - injection H as <- <- <-. split; [assumption|lia].
Qed.

Lemma reid_li_ok : forall p st line st' line' b,
  reid_li p st line = Some (st', line', b) ->
  ul_id_ok p st -> ul_id_ok p st' /\ element_counter st <= element_counter st'.
Proof.
  intros p st line st' line' b H Hok. unfold reid_li in H. destruct st as [ec u lc h].
  simpl in *.
  destruct (search (open_tag_attrs (py "li")) line).
  - destruct (opt_truthy u).
    + destruct (sub 0 _ _ line); [|discriminate]. injection H as <- <- <-.
      split; [|simpl; lia]. eapply ul_id_ok_mono; [|exact Hok]. lia.
    + destruct (sub 0 _ _ line); [|discriminate]. injection H as <- <- <-.
      split; [|simpl; lia]. eapply ul_id_ok_mono; [|exact Hok]. lia.
  - injection H as <- <- <-. split; [assumption|simpl; lia].
Qed.

Lemma reid_line_ok : forall p st line st' line',
  reid_line p st line = Some (st', line') ->
  ul_id_ok p st -> ul_id_ok p st' /\ element_counter st <= element_counter st'.
Proof.
  intros p st line st' line' H Hok. unfold reid_line in H.
  destruct (found head_open line).
  { injection H as <- <-. destruct st; split; [eapply ul_id_ok_mono; [|exact Hok]|]; simpl; lia. }
  destruct (found head_close line).
  { injection H as <- <-. destruct st; split; [eapply ul_id_ok_mono; [|exact Hok]|]; simpl; lia. }
  destruct (in_head_section st).
  { injection H as <- <-. split; [assumption|lia]. }
  destruct (contains (py "pagebreak") line || _).
  { injection H as <- <-. split; [assumption|lia]. }
  destruct (found head_like line).
  { injection H as <- <-. split; [assumption|lia]. }
  destruct (reid_ul p st line) as [[[st1 line1] b1]|] eqn:E1; [|discriminate].
  destruct (reid_li p st1 line1) as [[[st2 line2] b2]|] eqn:E2; [|discriminate].
  destruct (reid_ul_ok _ _ _ E1 Hok) as [Hok1 L1].
  destruct (reid_li_ok _ _ _ E2 Hok1) as [Hok2 L2].
  destruct (negb b1 && negb b2).
  - pose proof (replace_element_id_counter p (finditer block_tag line2) (element_counter st2)) as L3.
    destruct (render_st (replace_element_id p) (finditer block_tag line2) (element_counter st2))
      as [line3 ec]. simpl in L3.
    injection H as <- <-. destruct st2 as [ec2 u2 lc2 h2]. simpl in *.
    split; [eapply ul_id_ok_mono; [|exact Hok2]; lia|lia].
  - injection H as <- <-. split; [assumption|lia].
Qed.

(** ** Replacement templates *)

Lemma parse_plain : forall groups b fuel,
  plain b -> parse_template_fuel fuel groups b = Some (map TLit (firstn fuel b)).
Proof.
  induction b as [|c b IH]; intros fuel H; destruct fuel; try reflexivity.
  inversion H as [|? ? Hc Hb]; subst. simpl.
  destruct (Ascii.eqb c "\") eqn:E.
  - apply Ascii.eqb_eq in E. contradiction.
  - rewrite IH by assumption. reflexivity.
Qed.

Lemma take_digits_app_space : forall a b,
  take_digits (a ++ " "%char :: b) =
  let (d, r) := take_digits a in (d, r ++ " "%char :: b).
Proof.
  induction a as [|c a IH]; intros b; simpl; [reflexivity|].
  destruct (is_digit c); [|reflexivity].
  rewrite IH. destruct (take_digits a). reflexivity.
Qed.

Lemma take_digits_length : forall a, length (snd (take_digits a)) <= length a.
Proof.
  induction a as [|c a IH]; simpl; [lia|].
  destruct (is_digit c); simpl; [|lia].
  destruct (take_digits a). simpl in *. lia.
Qed.

(** An escape that starts in [a] either ends in [a], or is the backslash
    that ends [a] followed by the blank. *)
Lemma parse_escape_tail : forall groups a b its rest,
  parse_escape groups (a ++ " "%char :: b) = Some (its, rest) ->
  (exists a', rest = a' ++ " "%char :: b /\ length a' < length a)
  \/ (a = [] /\ its = [TLit backslash; TLit " "%char] /\ rest = b).
Proof.
  intros groups a b its rest H.
  destruct a as [|c a1].
  { right. simpl in H. injection H as <- <-. auto. }
  left. simpl in H.
  destruct (Ascii.eqb c "g").
  { destruct a1 as [|l a2]; simpl in H; [discriminate|].
    destruct (Ascii.eqb l "<"); [|discriminate].
    rewrite take_digits_app_space in H.
    pose proof (take_digits_length a2) as L.
    destruct (take_digits a2) as [d r]. simpl in L.
    destruct d; [discriminate|].
    destruct r as [|g r']; simpl in H; [discriminate|].
    destruct (Ascii.eqb g ">" && _); [|discriminate].
    injection H as <- <-. exists r'. split; [reflexivity|]. simpl in *. lia. }
  destruct (Ascii.eqb c "0").
  { destruct a1 as [|d1 a2]; simpl in H.
    - injection H as <- <-. exists []. split; [reflexivity|simpl; lia].
    - destruct (is_octal d1).
      + destruct a2 as [|d2 a3]; simpl in H.
        * injection H as <- <-. exists []. split; [reflexivity|simpl; lia].
        * destruct (is_octal d2); injection H as <- <-.
          -- exists a3. split; [reflexivity|simpl; lia].
          -- exists (d2 :: a3). split; [reflexivity|simpl; lia].
      + injection H as <- <-. exists (d1 :: a2). split; [reflexivity|simpl; lia]. }
  destruct (is_digit c).
  { destruct a1 as [|d1 a2]; simpl in H.
    - destruct (digit_val c <=? groups); [|discriminate].
      injection H as <- <-. exists []. split; [reflexivity|simpl; lia].
    - destruct (is_digit d1).
      + destruct a2 as [|d2 a3]; simpl in H.
        * rewrite andb_false_r in H.
          destruct (_ <=? groups); [|discriminate].
          injection H as <- <-. exists []. split; [reflexivity|simpl; lia].
        * destruct (is_octal c && is_octal d1 && is_octal d2).
          -- destruct (_ <=? 255); [|discriminate].
             injection H as <- <-. exists a3. split; [reflexivity|simpl; lia].
          -- destruct (_ <=? groups); [|discriminate].
             injection H as <- <-. exists (d2 :: a3). split; [reflexivity|simpl; lia].
      + destruct (digit_val c <=? groups); [|discriminate].
        injection H as <- <-. exists (d1 :: a2). split; [reflexivity|simpl; lia]. }
  destruct (escape_char c).
  { injection H as <- <-. exists a1. split; [reflexivity|simpl; lia]. }
  destruct (is_ascii_letter c); [discriminate|].
  injection H as <- <-. exists a1. split; [reflexivity|simpl; lia].
Qed.

Lemma parse_template_tail : forall groups b, plain b ->
  forall fuel a t, length (a ++ " "%char :: b) <= fuel ->
  parse_template_fuel fuel groups (a ++ " "%char :: b) = Some t ->
  exists ta, t = ta ++ map TLit (" "%char :: b).
Proof.
  intros groups b Hb. induction fuel as [|fuel IH]; intros a t L H.
  { rewrite length_app in L. simpl in L. lia. }
  destruct a as [|c a].
  - simpl app in H. rewrite parse_plain in H.
    + injection H as <-. exists []. simpl. rewrite firstn_all2; [reflexivity|].
      simpl in L. lia.
    + constructor; [discriminate|assumption].
  - simpl in H. destruct (Ascii.eqb c "\") eqn:Ec.
    + destruct (parse_escape groups (a ++ " "%char :: b)) as [[its rest]|] eqn:E;
        [|discriminate].
      destruct (parse_template_fuel fuel groups rest) as [t'|] eqn:E2; [|discriminate].
      simpl in H. injection H as <-.
      destruct (parse_escape_tail _ _ _ E) as [[a' [-> La]]|[-> [-> ->]]].
      * apply IH in E2.
        -- destruct E2 as [ta ->]. exists (its ++ ta). rewrite app_assoc. reflexivity.
        -- simpl in L. rewrite length_app in *. simpl in *. lia.
      * rewrite parse_plain in E2 by assumption. injection E2 as <-.
        exists [TLit backslash]. simpl. rewrite firstn_all2; [reflexivity|].
        simpl in L. lia.
    + destruct (parse_template_fuel fuel groups (a ++ " "%char :: b)) as [t'|] eqn:E2;
        [|discriminate].
      simpl in H. injection H as <-.
      apply IH in E2; [|simpl in L; lia].
      destruct E2 as [ta ->]. exists (TLit c :: ta). reflexivity.
Qed.

Lemma expand_plain_tail : forall ta b m,
  expand (ta ++ map TLit b) m = expand ta m ++ b.
Proof.
  intros. unfold expand. rewrite flat_map_app. f_equal.
  induction b as [|c b IH]; simpl; [reflexivity|]. rewrite IH. reflexivity.
Qed.

Lemma render_ext : forall (A : Type) (f g : A -> str) l,
  (forall a, f a = g a) -> render f l = render g l.
Proof.
  intros A f g l H. induction l as [|[c|a] l IH]; simpl; [reflexivity| |];
    fold (render f l); fold (render g l); rewrite IH; [reflexivity|].
  rewrite H. reflexivity.
Qed.


Lemma sub_tail : forall groups r a b s out,
  plain b ->
  sub groups r (a ++ " "%char :: b) s = Some out ->
  rewritten_to_end_with r (" "%char :: b) s out.
Proof.
  intros groups r a b s out Hb H. unfold sub in H.
  destruct (parse_template groups (a ++ " "%char :: b)) as [t|] eqn:E; [|discriminate].
  injection H as <-. unfold parse_template in E.
  apply parse_template_tail in E; [|assumption|lia].
  destruct E as [ta ->]. exists (expand ta). unfold sub_fun.
  apply render_ext. intros m. apply expand_plain_tail.
Qed.

(** ** Identifiers written on the copyright page *)

Lemma plain_app : forall a b, plain a -> plain b -> plain (a ++ b).
Proof. intros. apply Forall_app. split; assumption. Qed.

Lemma plain_uint : forall d,
  plain (String.list_ascii_of_string (NilEmpty.string_of_uint d)).
Proof.
  induction d; simpl; try constructor; try assumption; discriminate.
Qed.

Lemma plain_str_of_nat : forall n, plain (str_of_nat n).
Proof. intros. apply plain_uint. Qed.

Lemma plain_closed : forall s, forallb (fun c => negb (Ascii.eqb c backslash)) s = true -> plain s.
Proof.
  induction s as [|c s IH]; intros H; [constructor|].
  simpl in H. apply andb_prop in H. destruct H as [H1 H2].
  constructor; [|apply IH; exact H2].
  intros ->. rewrite Ascii.eqb_refl in H1. discriminate.
Qed.

Lemma plain_unique_id : forall p k, plain (unique_id p k).
Proof.
  intros. unfold unique_id.
  repeat apply plain_app; try apply plain_str_of_nat; apply plain_closed; reflexivity.
Qed.

Lemma with_new_id_tail : forall attrs new_id,
  exists x, with_new_id attrs new_id = x ++ py " id=`" ++ new_id ++ py "`".
Proof.
  intros. unfold with_new_id.
  destruct (truthy (strip (sub_lit id_to_drop [] attrs))).
  - exists (sub_lit id_to_drop [] attrs). reflexivity.
  - exists []. reflexivity.
Qed.

(** The template [<name{new_attrs}>] makes every match end with the new
    id. *)
Lemma sub_new_id : forall r name attrs new_id line line',
  plain new_id ->
  sub 0 r (name ++ with_new_id attrs new_id ++ py ">") line = Some line' ->
  rewritten_to_end_with r (id_tail new_id) line line'.
Proof.
  intros r name attrs new_id line line' Hp H.
  destruct (with_new_id_tail attrs new_id) as [x Hx]. rewrite Hx in H.
  replace (name ++ (x ++ py " id=`" ++ new_id ++ py "`") ++ py ">")
    with ((name ++ x) ++ " "%char :: (py "id=`" ++ new_id ++ py "`>")) in H.
  - apply sub_tail in H; [exact H|].
    repeat apply plain_app; try assumption; apply plain_closed; reflexivity.
  - rewrite <- !app_assoc. simpl. rewrite <- ?app_assoc. reflexivity.
Qed.

Lemma reid_ul_writes : forall p st line st1 line1,
  reid_ul p st line = Some (st1, line1, true) ->
  rewritten_to_end_with (open_tag (py "ul"))
    (id_tail (unique_id p (element_counter st + 1))) line line1
  /\ st1 = ReidState (element_counter st + 1)
                     (Some (unique_id p (element_counter st + 1))) 0 (in_head_section st).
Proof.
  intros p st line st1 line1 H. unfold reid_ul in H.
  destruct (search (open_tag_attrs (py "ul")) line) as [m|]; [|discriminate].
  destruct (sub 0 _ _ line) as [l'|] eqn:E; [|discriminate].
  injection H as <- <-. split; [|reflexivity].
  eapply (sub_new_id _ (py "<ul")); [apply plain_unique_id|exact E].
Qed.

Lemma reid_ul_none : forall p st line st1 line1,
  reid_ul p st line = Some (st1, line1, false) -> st1 = st /\ line1 = line.
Proof.
  intros p st line st1 line1 H. unfold reid_ul in H.
  destruct (search (open_tag_attrs (py "ul")) line) as [m|].
  - destruct (sub 0 _ _ line); discriminate.
  - injection H as <- <-. auto.
Qed.

Lemma reid_li_none : forall p st line st1 line1,
  reid_li p st line = Some (st1, line1, false) -> st1 = st /\ line1 = line.
Proof.
  intros p st line st1 line1 H. unfold reid_li in H.
  destruct (search (open_tag_attrs (py "li")) line) as [m|].
  - destruct (opt_truthy (current_ul_id st)); destruct (sub 0 _ _ line); discriminate.
  - injection H as <- <-. auto.
Qed.

Lemma opt_truthy_unique_id : forall p k, opt_truthy (Some (unique_id p k)) = true.
Proof. reflexivity. Qed.

Lemma reid_li_writes : forall p st line st1 line1,
  ul_id_ok p st ->
  reid_li p st line = Some (st1, line1, true) ->
  match current_ul_id st with
  | Some u =>
      exists k, u = unique_id p k
        /\ rewritten_to_end_with (open_tag (py "li"))
             (id_tail (unique_id p k ++ py "_" ++ str_of_nat (li_counter st + 1)))
             line line1
  | None =>
      rewritten_to_end_with (open_tag (py "li"))
        (id_tail (unique_id p (element_counter st + 1))) line line1
  end.
Proof.
  intros p st line st1 line1 Hok H. unfold reid_li in H. unfold ul_id_ok in Hok.
  destruct (search (open_tag_attrs (py "li")) line) as [m|]; [|discriminate].
  destruct (current_ul_id st) as [u|] eqn:Eu.
  - destruct Hok as [k [_ ->]]. exists k. split; [reflexivity|].
    rewrite opt_truthy_unique_id in H.
    destruct (sub 0 _ _ line) as [l'|] eqn:E; [|discriminate].
    injection H as <- <-.
    eapply (sub_new_id _ (py "<li")); [|exact E].
    repeat apply plain_app;
      first [apply plain_str_of_nat | apply plain_closed; reflexivity].
  - change (opt_truthy None) with false in H. cbv iota in H.
    destruct (sub 0 _ _ line) as [l'|] eqn:E; [|discriminate].
    injection H as <- <-.
    eapply (sub_new_id _ (py "<li")); [apply plain_unique_id|exact E].
Qed.

Lemma count_reidentified_cons : forall it l,
  count_reidentified (it :: l) =
  (match it with IMatch m => if reidentified m then 1 else 0 | IChar _ => 0 end)
  + count_reidentified l.
Proof.
  intros. unfold count_reidentified, matches_of. simpl.
  destruct it as [ch|m]; simpl; [reflexivity|].
  destruct (reidentified m); reflexivity.
Qed.

Lemma block_piece_shift : forall c x before it,
  block_piece c (x :: before) it =
  block_piece (c + match x with IMatch m => if reidentified m then 1 else 0
                             | IChar _ => 0 end) before it.
Proof.
  intros. destruct it as [ch|m]; simpl; [reflexivity|].
  rewrite count_reidentified_cons.
  destruct (reidentified m); [|reflexivity].
  set (d := match x with IMatch m0 => if reidentified m0 then 1 else 0 | IChar _ => 0 end).
  replace (c + 1 + (d + count_reidentified before))
    with (c + d + 1 + count_reidentified before) by lia.
  reflexivity.
Qed.

Lemma replace_element_id_spec : forall m c,
  replace_element_id 3 m c =
  if reidentified m
  then (py "<" ++ group_or_empty m 1
        ++ with_new_id (group_or_empty m 2) (page_3_id (c + 1)) ++ py ">", c + 1)
  else (m_text m, c).
Proof.
  intros. unfold replace_element_id, reidentified.
  destruct (mem_str _ nested_or_head_tags); reflexivity.
Qed.

Lemma render_st_blocks : forall l c,
  exists pieces,
    render_st (replace_element_id 3) l c = (concat pieces, c + count_reidentified l)
    /\ length pieces = length l
    /\ forall i it, nth_error l i = Some it ->
         nth_error pieces i = Some (block_piece c (firstn i l) it).
Proof.
  induction l as [|x l IH]; intros c.
  - exists []. split; [|split].
    + simpl. f_equal. unfold count_reidentified. simpl. lia.
    + reflexivity.
    + intros [|i] it H; discriminate.
  - destruct x as [ch|m].
    + destruct (IH c) as [ps [H1 [H2 H3]]].
      exists ([ch] :: ps). simpl. rewrite H1. rewrite count_reidentified_cons.
      split; [reflexivity|]. split; [congruence|].
      intros [|i] it H; simpl in *.
      * injection H as <-. reflexivity.
      * rewrite (H3 _ _ H). apply (f_equal Some).
        rewrite block_piece_shift. rewrite Nat.add_0_r. reflexivity.
    + simpl. rewrite replace_element_id_spec. rewrite count_reidentified_cons.
      destruct (reidentified m) eqn:En.
      * destruct (IH (c + 1)) as [ps [H1 [H2 H3]]].
        exists ((py "<" ++ group_or_empty m 1
                 ++ with_new_id (group_or_empty m 2) (page_3_id (c + 1)) ++ py ">") :: ps).
        rewrite H1.
        split; [simpl; f_equal; lia|]. split; [simpl; congruence|].
        intros [|i] it H; simpl in H.
        -- injection H as <-. simpl. rewrite En. unfold count_reidentified. simpl.
           rewrite Nat.add_0_r. reflexivity.
        -- simpl nth_error. rewrite (H3 _ _ H). apply (f_equal Some).
           simpl firstn. rewrite block_piece_shift. rewrite En. reflexivity.
      * destruct (IH c) as [ps [H1 [H2 H3]]].
        exists (m_text m :: ps). rewrite H1.
        split; [simpl; f_equal; lia|]. split; [simpl; congruence|].
        intros [|i] it H; simpl in H.
        -- injection H as <-. simpl. rewrite En. reflexivity.
        -- simpl nth_error. rewrite (H3 _ _ H). apply (f_equal Some).
           simpl firstn. rewrite block_piece_shift. rewrite En.
           rewrite Nat.add_0_r. reflexivity.
Qed.

Lemma reid_line_writes : forall st line st' line',
  ul_id_ok 3 st ->
  reid_line 3 st line = Some (st', line') ->
  written_by_reid st line line'.
Proof.
  intros st line st' line' Hok H. unfold reid_line in H.
  destruct (found head_open line); [injection H as <- <-; apply reid_kept; reflexivity|].
  destruct (found head_close line); [injection H as <- <-; apply reid_kept; reflexivity|].
  destruct (in_head_section st); [injection H as <- <-; apply reid_kept; reflexivity|].
  destruct (contains (py "pagebreak") line || _);
    [injection H as <- <-; apply reid_kept; reflexivity|].
  destruct (found head_like line); [injection H as <- <-; apply reid_kept; reflexivity|].
  destruct (reid_ul 3 st line) as [[[st1 line1] b1]|] eqn:E1; [|discriminate].
  destruct (reid_li 3 st1 line1) as [[[st2 line2] b2]|] eqn:E2; [|discriminate].
  destruct b1.
  - destruct (reid_ul_writes _ _ _ E1) as [W1 ->].
    destruct b2; simpl in H; injection H as <- <-.
    + apply reid_li_writes in E2.
      * simpl in E2. destruct E2 as [k [Hk W2]].
        apply reid_list_and_item with (line1 := line1); [exact W1|].
        assert (Ek : k = element_counter st + 1).
        { unfold unique_id in Hk. apply app_inv_head in Hk. apply app_inv_head in Hk.
          apply app_inv_head in Hk. unfold str_of_nat in Hk.
          apply (f_equal String.string_of_list_ascii) in Hk.
          rewrite !String.string_of_list_ascii_of_string in Hk.
          apply (f_equal NilEmpty.uint_of_string) in Hk. rewrite !NilEmpty.usu in Hk.
          injection Hk as Hk. apply DecimalNat.Unsigned.to_uint_inj in Hk. auto. }
        subst k. exact W2.
      * unfold ul_id_ok. simpl. exists (element_counter st + 1). split; [lia|reflexivity].
    + apply reid_li_none in E2. destruct E2 as [_ ->]. apply reid_list. exact W1.
  - apply reid_ul_none in E1. destruct E1 as [-> ->].
    destruct b2; simpl in H.
    + injection H as <- <-.
      pose proof (@reid_li_writes _ _ _ _ _ Hok E2) as W2.
      destruct (current_ul_id st) as [u|] eqn:Eu.
      * destruct W2 as [k [-> W2]]. apply reid_item_in_list with (k := k); assumption.
      * apply reid_item_without_list; [exact Eu|exact W2].
    + apply reid_li_none in E2. destruct E2 as [-> ->].
      destruct (render_st_blocks (finditer block_tag line) (element_counter st))
        as [ps [R1 [R2 R3]]].
      rewrite R1 in H. injection H as <- <-.
      apply reid_blocks with (pieces := ps); auto.
Qed.

Lemma reid_lines_writes : forall lines st out,
  ul_id_ok 3 st ->
  reid_lines 3 st lines = Some out ->
  Forall2 (fun line line' => exists st_i, ul_id_ok 3 st_i /\ written_by_reid st_i line line')
          lines out.
Proof.
  induction lines as [|l lines IH]; intros st out Hok H; simpl in H.
  - injection H as <-. constructor.
  - destruct (reid_line 3 st l) as [[st' l']|] eqn:E; [|discriminate].
    destruct (reid_lines 3 st' lines) as [out'|] eqn:E2; [|discriminate].
    simpl in H. injection H as <-.
    constructor.
    + exists st. split; [assumption|]. eapply reid_line_writes; eassumption.
    + eapply IH; [|exact E2]. eapply reid_line_ok; eassumption.
Qed.

(** C9 (amended).  Called with no page number, [convert_copyright_structure]
    does exactly what it does for page number 3, and every identifier its
    re-identification scan writes is built from the literal 3.  A line the
    scan does not skip is rewritten in one of these ways: each [ul] tag on
    it ends with the id [page_3_k], [k] the element counter plus one, and
    [li] tags on that same line with [page_3_k_1]; or, with no [ul] on the
    line, each [li] tag ends with [page_3_k_j], [k] the number of the last
    list numbered and [j] the item counter plus one, and, when no list was
    numbered before (the fallback of the code), with [page_3_k], [k] the
    element counter plus one; or, with neither, each [h1]-[h6], [p], [div]
    and [section] tag the block pass re-identifies gets [page_3_k] after
    its other attributes, [k] counting up from the element counter.  The
    id of the list in progress is always such a [page_3_k]. *)
Theorem copyright_ids_use_page_3 :
  (forall html_content page_id,
     convert_copyright_structure html_content page_id None
     = convert_copyright_structure html_content page_id (Some 3))
  /\ (forall st line st' line',
        ul_id_ok 3 st ->
        reid_line (page_num_or_3 None) st line = Some (st', line') ->
        written_by_reid st line line'
        /\ ul_id_ok 3 st' /\ element_counter st <= element_counter st')
  /\ (forall body_lines out,
        reid_lines (page_num_or_3 None) (ReidState 0 None 0 false) body_lines = Some out ->
        Forall2 (fun line line' =>
                   exists st_i, ul_id_ok 3 st_i /\ written_by_reid st_i line line')
                body_lines out)
  /\ (forall attrs new_id,
        exists kept, with_new_id attrs new_id = kept ++ py " id=`" ++ new_id ++ py "`").
Proof.
  split; [intros; reflexivity|]. split; [|split].
  - intros st line st' line' Hok H. change (page_num_or_3 None) with 3 in H. split.
    + eapply reid_line_writes; eassumption.
    + eapply reid_line_ok; eassumption.
  - intros body_lines out H. change (page_num_or_3 None) with 3 in H.
    eapply reid_lines_writes; [|exact H]. exact I.
  - apply with_new_id_tail.
Qed.

Lemma copyright_ids_use_page_3_witness :
  (ul_id_ok 3 (ReidState 1 (Some (py "page_3_1")) 0 false)
   /\ reid_line (page_num_or_3 None) (ReidState 1 (Some (py "page_3_1")) 0 false)
        (py "                <li>one</li>")
      = Some (ReidState 1 (Some (py "page_3_1")) 1 false,
              py "                <li id=`page_3_1_1`>one</li>"))
  /\ (written_by_reid (ReidState 1 (Some (py "page_3_1")) 0 false)
        (py "                <li>one</li>")
        (py "                <li id=`page_3_1_1`>one</li>")
      /\ ul_id_ok 3 (ReidState 1 (Some (py "page_3_1")) 1 false) /\ 1 <= 1).
Proof.
  assert (Hok : ul_id_ok 3 (ReidState 1 (Some (py "page_3_1")) 0 false)).
  { exists 1. split; [simpl; lia|reflexivity]. }
  assert (H : reid_line (page_num_or_3 None) (ReidState 1 (Some (py "page_3_1")) 0 false)
                (py "                <li>one</li>")
              = Some (ReidState 1 (Some (py "page_3_1")) 1 false,
                      py "                <li id=`page_3_1_1`>one</li>"))
    by (vm_compute; reflexivity).
  split; [split; [exact Hok|exact H]|].
  exact (proj1 (proj2 copyright_ids_use_page_3) _ _ _ _ Hok H).
Defined.

Lemma str_of_nat_nonempty : forall n, str_of_nat n <> [].
Proof.
  intros n H. unfold str_of_nat in H.
  apply (f_equal String.string_of_list_ascii) in H.
  rewrite String.string_of_list_ascii_of_string in H. simpl in H.
  apply (f_equal NilEmpty.uint_of_string) in H. rewrite NilEmpty.usu in H.
  simpl in H. injection H as H.
  assert (Hn : n = 0).
  { apply (f_equal Nat.of_uint) in H. rewrite DecimalNat.Unsigned.of_to in H. exact H. }
  subst n. discriminate H.
Qed.

(** C9, counterexample.  A list item met before any [ul] was numbered
    gets an element id, [page_3_1], which has no item index. *)
Lemma list_item_without_list_gets_element_id :
  convert_copyright_structure
    (join_lines [py "<ol>"; py "<li>a</li>"; py "</ol>"]) (py "crt") None
  = Some (join_lines [py "<ol>"; py "<li id=`page_3_1`>a</li>"; py "</ol>"])
  /\ forall k j, py "page_3_1" <> page_3_item_id k j.
Proof.
  split; [vm_compute; reflexivity|].
  intros k j H. unfold page_3_item_id in H.
  apply (app_inv_head (py "page_3_")) in H.
  pose proof (str_of_nat_nonempty k) as Hk.
  destruct (str_of_nat k) as [|c r]; [contradiction|].
  simpl in H. injection H as _ H. destruct r; discriminate.
Qed.

(** ** List clustering *)















(** The page transform on a run of two and a run of one. *)
Example cluster_lists_example :
  cluster_lists [py "<h2>Titles</h2>"; py "<p>one</p>"; py "<p id=`x`> two </p>";
                 py "<p class=`crt`>c</p>"; py "<p>single</p>"; []; py "<p>&nbsp;</p>"]
  = [py "<h2>Titles</h2>";
     py "            <ul class=`bestellers_list`>";
     py "                <li>one</li>";
     py "                <li>two</li>";
     py "            </ul>";
     py "<p class=`crt`>c</p>"; py "<p>single</p>"; []; py "<p>&nbsp;</p>"].
Proof. vm_compute. reflexivity. Qed.

(** ** The page loop *)

Section SortByKey.
Variable A : Type.




End SortByKey.











(** ** Identifiers of a page *)













(** ** The matcher on tags *)

#[local] Arguments Ascii.eqb : simpl never.
Unset Implicit Arguments.

Lemma advance_over_nil : forall t st, ms_rest st = t -> advance_over [] t st = st.
Proof. intros t st <-. destruct st. reflexivity. Qed.

Lemma advance_over_cons : forall c w t st,
  advance_over w t (advance c (w ++ t) st) = advance_over (c :: w) t st.
Proof.
  intros. unfold advance_over, advance. simpl.
  rewrite <- app_assoc. simpl. f_equal.
  destruct (rev w) as [|x r] eqn:E; reflexivity.
Qed.

Lemma advance_over_app : forall w1 w2 t st,
  advance_over w2 t (advance_over w1 (w2 ++ t) st) = advance_over (w1 ++ w2) t st.
Proof.
  intros. unfold advance_over. simpl. rewrite rev_app_distr, <- app_assoc. f_equal.
  destruct (rev w2); reflexivity.
Qed.


Lemma flat_map_fails : forall (A B : Type) (k : A -> list B) l,
  Forall (fun a => k a = []) l -> flat_map k l = [].
Proof.
  intros A B k l H. induction H as [|a l Ha _ IH]; simpl; [reflexivity|].
  rewrite Ha, IH. reflexivity.
Qed.

(** [p*] first takes all of a stretch of [p]; every other way leaves a
    character of [p] next. *)
Lemma greedy_all : forall p w t st,
  Forall (fun c => p c = true) w -> stops p t -> ms_rest st = w ++ t ->
  exists others,
    greedy p (w ++ t) st = advance_over w t st :: others
    /\ Forall (headed p) others.
Proof.
  intros p w. induction w as [|c w IH]; intros t st Hw Ht Hr.
  - rewrite advance_over_nil by exact Hr. exists []. split; [|constructor].
    simpl. destruct t as [|c t]; [reflexivity|]. simpl in Ht. simpl. rewrite Ht.
    reflexivity.
  - inversion Hw as [|? ? Hc Hw']; subst. simpl. rewrite Hc.
    destruct (IH t (advance c (w ++ t) st) Hw' Ht eq_refl) as [others [E F]].
    rewrite E, advance_over_cons. exists (others ++ [st]). split; [reflexivity|].
    apply Forall_app. split; [exact F|]. constructor; [|constructor].
    unfold headed. rewrite Hr. exact Hc.
Qed.


Lemma run_plus_then : forall p r c w t st,
  p c = true -> Forall (fun c => p c = true) w -> stops p t ->
  ms_rest st = c :: w ++ t ->
  (forall st', headed p st' -> run r st' = []) ->
  run (Seq (Plus p) r) st = run r (advance_over (c :: w) t st).
Proof.
  intros p r c w t st Hc Hw Ht Hr Hf.
  change (run (Seq (Plus p) r) st)
    with (flat_map (run r) (flat_map (fun s => greedy p (ms_rest s) s)
            (match ms_rest st with
             | c :: s' => if p c then [advance c s' st] else []
             | [] => []
             end))).
  rewrite Hr, Hc. cbn [flat_map]. rewrite app_nil_r. cbn [advance ms_rest].
  destruct (@greedy_all p w t (advance c (w ++ t) st) Hw Ht eq_refl) as [others [E F]].
  rewrite E. cbn [flat_map]. rewrite advance_over_cons.
  rewrite flat_map_fails; [apply app_nil_r|].
  eapply Forall_impl; [|exact F]. intros a Ha. apply Hf. exact Ha.
Qed.




Lemma strip_prefix_spec : forall l s t, strip_prefix l s = Some t -> s = l ++ t.
Proof.
  induction l as [|c l IH]; intros s t H.
  - injection H as <-. reflexivity.
  - destruct s as [|x s]; [discriminate|]. cbn [strip_prefix] in H.
    destruct (Ascii.eqb c x) eqn:E; [|discriminate]. apply Ascii.eqb_eq in E. subst x.
    apply IH in H. subst s. reflexivity.
Qed.

Lemma run_chr_then : forall c r st,
  run (Seq (chr c) r) st =
  match ms_rest st with
  | x :: s' => if Ascii.eqb c x then run r (advance x s' st) else []
  | [] => []
  end.
Proof.
  intros. change (run (Seq (chr c) r) st)
    with (flat_map (run r)
            (match ms_rest st with
             | x :: s' => if Ascii.eqb c x then [advance x s' st] else []
             | [] => []
             end)).
  destruct (ms_rest st) as [|x s']; [reflexivity|].
  destruct (Ascii.eqb c x); [|reflexivity]. cbn [flat_map]. apply app_nil_r.
Qed.








(** ** The scan, one step at a time *)

Section PassFacts.
Variable A : Type.
Variable try : option ascii -> str -> option (A * str).
Variable f : A -> str.



End PassFacts.

(** ** The accessibility pass *)
































